(** * Image operations of the Docker client binding (image.go)

    A shallow embedding of [image.go] of go-dockerclient as vendored by
    dogestry.  Every exported method of [*Client] in that file is one
    definition below, written in a small state monad whose state is the list
    of requests handed to the transport so far.  The transport itself
    ([Client.do], [Client.stream]), the query-string encoder and the pieces of
    the Go runtime the file calls are parameters of the development. *)

From Stdlib Require Import Strings.String Lists.List ZArith Bool.Bool
  Strings.Byte Lia.
Import ListNotations.
Open Scope string_scope.

(** ** Values shared by all operations *)

Definition bytes := list byte.

(** Go's [error] interface.  The three package variables of image.go are the
    first three constructors; every other error value (transport, JSON,
    operating system) is a [ForeignError]. *)
Inductive error : Type :=
| ErrNoSuchImage
| ErrMissingRepo
| ErrMissingOutputStream
| ForeignError (msg : string).

(** A Go pair [(T, error)] in which exactly one side is meaningful. *)
Inductive result (A : Type) : Type :=
| Ok (a : A)
| Err (e : error).
Arguments Ok {A} a.
Arguments Err {A} e.

(** [io.Reader] values.  A reader handed in by the caller is an opaque handle;
    [BytesBuffer b] is a [bytes.Buffer] allocated by the operation itself
    holding [b].  The nil interface is [None]. *)
Inductive io_Reader : Type :=
| CallerReader (h : nat)
| BytesBuffer (b : bytes).

(** [io.Writer] values: always supplied by the caller. *)
Inductive io_Writer : Type :=
| CallerWriter (h : nat).

(** [http.StatusNotFound]. *)
Definition http_StatusNotFound : Z := 404.

(** ** The structs of image.go *)

Module APIImages.
Record t : Type := Build {
  ID : string;
  RepoTags : list string;
  Created : Z;
  Size : Z;
  VirtualSize : Z;
  ParentId : string;
  Repository : string;
  Tag : string }.
End APIImages.

Module AuthConfiguration.
Record t : Type := Build {
  Username : string;
  Password : string;
  Email : string }.
End AuthConfiguration.

Module PushImageOptions.
Record t : Type := Build {
  Name : string;
  Registry : string;
  OutputStream : option io_Writer }.
Definition with_Name (n : string) (o : t) : t :=
  Build n (Registry o) (OutputStream o).
End PushImageOptions.

Module PullImageOptions.
Record t : Type := Build {
  Repository : string;
  Registry : string;
  OutputStream : option io_Writer }.
End PullImageOptions.

Module ImportImageOptions.
Record t : Type := Build {
  Repository : string;
  Source : string;
  InputStream : option io_Reader;
  OutputStream : option io_Writer }.
Definition with_InputStream (r : option io_Reader) (o : t) : t :=
  Build (Repository o) (Source o) r (OutputStream o).
Definition with_Source (s : string) (o : t) : t :=
  Build (Repository o) s (InputStream o) (OutputStream o).
End ImportImageOptions.

Module BuildImageOptions.
Record t : Type := Build {
  Name : string;
  Remote : string;
  SuppressOutput : bool;
  OutputStream : option io_Writer }.
Definition with_Name (n : string) (o : t) : t :=
  Build n (Remote o) (SuppressOutput o) (OutputStream o).
End BuildImageOptions.

Module TagImageOptions.
Record t : Type := Build {
  Repo : string;
  Force : bool }.
End TagImageOptions.

(** ** What [queryString] sees of a struct

    [queryString(&opts)] walks the fields of [opts] by reflection.  A struct is
    therefore presented to it as the list of its fields in declaration order,
    each with its Go name, the value of its [qs] tag (empty when the field has
    no such tag) and its current value. *)

Inductive qsValue : Type :=
| QString (s : string)
| QBool (b : bool)
| QReader (r : option io_Reader)
| QWriter (w : option io_Writer).

Record qsField : Type := Field {
  fieldName : string;
  qsTag : string;
  fieldValue : qsValue }.

Definition PushImageOptions_fields (o : PushImageOptions.t) : list qsField :=
  [ Field "Name" "" (QString (PushImageOptions.Name o));
    Field "Registry" "" (QString (PushImageOptions.Registry o));
    Field "OutputStream" "-" (QWriter (PushImageOptions.OutputStream o)) ].

Definition PullImageOptions_fields (o : PullImageOptions.t) : list qsField :=
  [ Field "Repository" "fromImage" (QString (PullImageOptions.Repository o));
    Field "Registry" "" (QString (PullImageOptions.Registry o));
    Field "OutputStream" "-" (QWriter (PullImageOptions.OutputStream o)) ].

Definition ImportImageOptions_fields (o : ImportImageOptions.t) : list qsField :=
  [ Field "Repository" "repo" (QString (ImportImageOptions.Repository o));
    Field "Source" "fromSrc" (QString (ImportImageOptions.Source o));
    Field "InputStream" "-" (QReader (ImportImageOptions.InputStream o));
    Field "OutputStream" "-" (QWriter (ImportImageOptions.OutputStream o)) ].

Definition BuildImageOptions_fields (o : BuildImageOptions.t) : list qsField :=
  [ Field "Name" "t" (QString (BuildImageOptions.Name o));
    Field "Remote" "remote" (QString (BuildImageOptions.Remote o));
    Field "SuppressOutput" "q" (QBool (BuildImageOptions.SuppressOutput o));
    Field "OutputStream" "-" (QWriter (BuildImageOptions.OutputStream o)) ].

Definition TagImageOptions_fields (o : TagImageOptions.t) : list qsField :=
  [ Field "Repo" "repo" (QString (TagImageOptions.Repo o));
    Field "Force" "force" (QBool (TagImageOptions.Force o)) ].

(** ** Files

    What [os.Open] yields on success.  [contents] is what the file holds;
    [read_fault], when present, is the number of bytes that can be read before
    reading fails and the error reading fails with (a directory opens fine
    and fails on the first read, with no byte read). *)
Record File : Type := MkFile {
  contents : bytes;
  read_fault : option (nat * error) }.

(** [ioutil.ReadAll]: the data read until end of file or an error, and that
    error; the error is nil when the whole file was read. *)
Definition ioutil_ReadAll (f : File) : bytes * option error :=
  match read_fault f with
  | None => (contents f, None)
  | Some (n, e) => (firstn n (contents f), Some e)
  end.

(** [net/url.URL]; only the scheme is looked at. *)
Record URL : Type := MkURL { Scheme : string }.

(** ** The transport and its trace *)

(** One invocation of the transport. *)
Inductive Request : Type :=
| DoRequest (method path : string) (data : option bytes)
| StreamRequest (method path : string)
                (input : option io_Reader) (output : option io_Writer).

(** Modelled from the spec: the transport methods [do] and [stream] of
    [Client] live in client.go, which is not among the sources.  The spec
    describes "an assumed generic transport object (Client) that performs HTTP
    calls and returns a body, status code, and error".  A client is therefore
    given by what it answers to a request, which may depend on the requests it
    has served before: [do] answers a body, a status code and an error,
    [stream] answers an error. *)
Record Client : Type := MkClient {
  do_reply : list Request -> string -> string -> option bytes ->
             bytes * Z * option error;
  stream_reply : list Request -> string -> string ->
                 option io_Reader -> option io_Writer -> option error }.

(** Computations that may call the transport: the state is the trace of
    requests dispatched so far, oldest first. *)
Definition M (A : Type) : Type := list Request -> A * list Request.

Definition ret {A} (a : A) : M A := fun tr => (a, tr).

Definition bind {A B} (m : M A) (k : A -> M B) : M B :=
  fun tr => let (a, tr') := m tr in k a tr'.

Notation "x <- m ;; k" := (bind m (fun x => k))
  (at level 61, m at next level, right associativity).
Notation "' p <- m ;; k" := (bind m (fun x => let 'p := x in k))
  (at level 61, p pattern, m at next level, right associativity).

(** [c.do(method, path, data)]. *)
Definition do (c : Client) (method path : string) (data : option bytes)
  : M (bytes * Z * option error) :=
  fun tr => (do_reply c tr method path data,
             (tr ++ [DoRequest method path data])%list).

(** [c.stream(method, path, in, out)]. *)
Definition stream (c : Client) (method path : string)
           (input : option io_Reader) (output : option io_Writer)
  : M (option error) :=
  fun tr => (stream_reply c tr method path input output,
             (tr ++ [StreamRequest method path input output])%list).

(** ** The rest of the environment *)

(** Modelled from the spec: [queryString] is defined in client.go, which is
    not among the sources; the spec only says that query-parameter encodings
    are "derived from struct field tags".  It is a parameter, applied to the
    reflective view of the struct.  The other fields are the functions of the
    Go standard library that image.go calls, and the type [Image], declared
    elsewhere in the package. *)
Class Runtime : Type := MkRuntime {
  Image : Type;
  queryString : list qsField -> string;
  (** [json.Unmarshal(body, &images)] *)
  json_Unmarshal_APIImages : bytes -> result (list APIImages.t);
  (** [json.Unmarshal(body, &image)] *)
  json_Unmarshal_Image : bytes -> result Image;
  (** what [json.NewEncoder(&buf).Encode(auth)] writes to [buf] *)
  json_Encode : AuthConfiguration.t -> bytes;
  (** [url.Parse] *)
  url_Parse : string -> result URL;
  (** [os.Open] *)
  os_Open : string -> result File }.

(** ** The operations *)

Section Operations.
Context {rt : Runtime}.
Variable c : Client.

Definition ListImages (all : bool) : M (result (list APIImages.t)) :=
  let path := "/images/json?all=" in
  let path := if all then path ++ "1" else path ++ "0" in
  '(body, _, err) <- do c "GET" path None ;;
  match err with
  | Some e => ret (Err e)
  | None =>
      match json_Unmarshal_APIImages body with
      | Err e => ret (Err e)
      | Ok images => ret (Ok images)
      end
  end.

Definition RemoveImage (name : string) : M (option error) :=
  '(_, status, err) <- do c "DELETE" ("/images/" ++ name) None ;;
  if (status =? http_StatusNotFound)%Z then ret (Some ErrNoSuchImage)
  else ret err.

Definition InspectImage (name : string) : M (result Image) :=
  '(body, status, err) <- do c "GET" ("/images/" ++ name ++ "/json") None ;;
  if (status =? http_StatusNotFound)%Z then ret (Err ErrNoSuchImage)
  else
    match err with
    | Some e => ret (Err e)
    | None =>
        match json_Unmarshal_Image body with
        | Err e => ret (Err e)
        | Ok image => ret (Ok image)
        end
    end.

Definition PushImage (opts : PushImageOptions.t)
           (auth : AuthConfiguration.t) : M (option error) :=
  if PushImageOptions.Name opts =? "" then ret (Some ErrNoSuchImage)
  else
    let name := PushImageOptions.Name opts in
    let opts := PushImageOptions.with_Name "" opts in
    let path := "/images/" ++ name ++ "/push?"
                ++ queryString (PushImageOptions_fields opts) in
    let buf := BytesBuffer (json_Encode auth) in
    stream c "POST" path (Some buf) (PushImageOptions.OutputStream opts).

Definition createImage (qs : string) (input : option io_Reader)
           (w : option io_Writer) : M (option error) :=
  let path := "/images/create?" ++ qs in
  stream c "POST" path input w.

Definition PullImage (opts : PullImageOptions.t) : M (option error) :=
  if PullImageOptions.Repository opts =? "" then ret (Some ErrNoSuchImage)
  else createImage (queryString (PullImageOptions_fields opts)) None
                   (PullImageOptions.OutputStream opts).

Definition isUrl (u : string) : bool :=
  match url_Parse u with
  | Err _ => false
  | Ok p => (Scheme p =? "http") || (Scheme p =? "https")
  end.

(** The two conditional blocks of [ImportImage] that rewrite [opts] before
    the request is built; the second one may fail on [os.Open].  The second
    result of [ioutil.ReadAll] is dropped, as in the source. *)
Definition ImportImage_prepare (opts : ImportImageOptions.t)
  : result ImportImageOptions.t :=
  let opts :=
    if negb (ImportImageOptions.Source opts =? "-")
    then ImportImageOptions.with_InputStream None opts
    else opts in
  if negb (ImportImageOptions.Source opts =? "-")
     && negb (isUrl (ImportImageOptions.Source opts))
  then
    match os_Open (ImportImageOptions.Source opts) with
    | Err e => Err e
    | Ok f =>
        let '(b, _) := ioutil_ReadAll f in
        let opts :=
          ImportImageOptions.with_InputStream (Some (BytesBuffer b)) opts in
        let opts := ImportImageOptions.with_Source "-" opts in
        Ok opts
    end
  else Ok opts.

Definition ImportImage (opts : ImportImageOptions.t) : M (option error) :=
  if ImportImageOptions.Repository opts =? "" then ret (Some ErrNoSuchImage)
  else
    match ImportImage_prepare opts with
    | Err e => ret (Some e)
    | Ok opts =>
        createImage (queryString (ImportImageOptions_fields opts))
                    (ImportImageOptions.InputStream opts)
                    (ImportImageOptions.OutputStream opts)
    end.

Definition BuildImage (opts : BuildImageOptions.t) : M (option error) :=
  if BuildImageOptions.Remote opts =? "" then ret (Some ErrMissingRepo)
  else
    let opts :=
      if BuildImageOptions.Name opts =? ""
      then BuildImageOptions.with_Name (BuildImageOptions.Remote opts) opts
      else opts in
    match BuildImageOptions.OutputStream opts with
    | None => ret (Some ErrMissingOutputStream)
    | Some _ =>
        err <- stream c "POST"
                 ("/build?" ++ queryString (BuildImageOptions_fields opts))
                 None (BuildImageOptions.OutputStream opts) ;;
        ret err
    end.

Definition GetImageTarball (imageName : string) (w : option io_Writer)
  : M (option error) :=
  stream c "GET" ("/images/" ++ imageName ++ "/get") None w.

Definition PostImageTarball (r : option io_Reader) : M (option error) :=
  stream c "POST" "/images/load" r None.

Definition SetImageTag (imageName tag : string) (force : bool)
  : M (option error) :=
  let opts := TagImageOptions.Build tag force in
  let path := "/images/" ++ imageName ++ "/tag?"
              ++ queryString (TagImageOptions_fields opts) in
  stream c "POST" path None None.

End Operations.

Arguments ListImages {rt} c all _.
Arguments InspectImage {rt} c name _.
Arguments PushImage {rt} c opts auth _.
Arguments PullImage {rt} c opts _.
Arguments ImportImage {rt} c opts _.
Arguments BuildImage {rt} c opts _.
Arguments SetImageTag {rt} c imageName tag force _.

(** ** One type for "every operation" *)

(** A call of one of the exported methods, with its arguments. *)
Inductive Call : Type :=
| CallListImages (all : bool)
| CallRemoveImage (name : string)
| CallInspectImage (name : string)
| CallPushImage (opts : PushImageOptions.t) (auth : AuthConfiguration.t)
| CallPullImage (opts : PullImageOptions.t)
| CallImportImage (opts : ImportImageOptions.t)
| CallBuildImage (opts : BuildImageOptions.t)
| CallGetImageTarball (imageName : string) (w : option io_Writer)
| CallPostImageTarball (r : option io_Reader)
| CallSetImageTag (imageName tag : string) (force : bool).

(** The error component of a Go result pair. *)
Definition failure {A} (r : result A) : option error :=
  match r with
  | Ok _ => None
  | Err e => Some e
  end.

(** Runs a call and keeps the error it returns. *)
Definition perform {rt : Runtime} (c : Client) (k : Call) : M (option error) :=
  match k with
  | CallListImages all => r <- ListImages c all ;; ret (failure r)
  | CallRemoveImage name => RemoveImage c name
  | CallInspectImage name => r <- InspectImage c name ;; ret (failure r)
  | CallPushImage opts auth => PushImage c opts auth
  | CallPullImage opts => PullImage c opts
  | CallImportImage opts => ImportImage c opts
  | CallBuildImage opts => BuildImage c opts
  | CallGetImageTarball imageName w => GetImageTarball c imageName w
  | CallPostImageTarball r => PostImageTarball c r
  | CallSetImageTag imageName tag force => SetImageTag c imageName tag force
  end.

(** The spec's "local validation": the required fields of the call are
    non-empty. *)
Definition validation_passes (k : Call) : bool :=
  match k with
  | CallPushImage opts _ => negb (PushImageOptions.Name opts =? "")
  | CallPullImage opts => negb (PullImageOptions.Repository opts =? "")
  | CallImportImage opts => negb (ImportImageOptions.Repository opts =? "")
  | CallBuildImage opts =>
      negb (BuildImageOptions.Remote opts =? "")
      && match BuildImageOptions.OutputStream opts with
         | Some _ => true
         | None => false
         end
  | _ => true
  end.

(** The spec's "local path": a source that is neither the stdin sentinel nor
    an http/https URL. *)
Definition is_local_path {rt : Runtime} (source : string) : bool :=
  negb (source =? "-") && negb (isUrl source).

(** For an import from a local path, whether the file can be opened; true for
    every other call. *)
Definition file_opens {rt : Runtime} (k : Call) : bool :=
  match k with
  | CallImportImage opts =>
      if is_local_path (ImportImageOptions.Source opts)
      then match os_Open (ImportImageOptions.Source opts) with
           | Ok _ => true
           | Err _ => false
           end
      else true
  | _ => true
  end.

(** Between trace [tr] and trace [tr'] the transport was invoked [n] times. *)
Definition invoked (n : nat) (tr tr' : list Request) : Prop :=
  exists reqs, tr' = (tr ++ reqs)%list /\ length reqs = n.






(** The request [ImportImage] sends for the rewritten options. *)
Definition import_request {rt : Runtime} (opts : ImportImageOptions.t)
  : Request :=
  StreamRequest "POST"
    ("/images/create?" ++ queryString (ImportImageOptions_fields opts))
    (ImportImageOptions.InputStream opts)
    (ImportImageOptions.OutputStream opts).

(** The error the local validation of a call answers with, when it fails. *)
Definition validation_error (k : Call) : error :=
  match k with
  | CallBuildImage opts =>
      if BuildImageOptions.Remote opts =? "" then ErrMissingRepo
      else ErrMissingOutputStream
  | _ => ErrNoSuchImage
  end.

(** ** The request of a call *)

Definition request_method (r : Request) : string :=
  match r with
  | DoRequest method _ _ => method
  | StreamRequest method _ _ _ => method
  end.

Definition request_path (r : Request) : string :=
  match r with
  | DoRequest _ path _ => path
  | StreamRequest _ path _ _ => path
  end.

(** The request a call hands to the transport, if it hands it one: the
    arguments each operation passes to [do] or [stream], collected from the
    bodies of the operations. *)
Definition request_of {rt : Runtime} (k : Call) : option Request :=
  match k with
  | CallListImages all =>
      Some (DoRequest "GET"
                      (if all then "/images/json?all=1"
                       else "/images/json?all=0")
                      None)
  | CallRemoveImage name =>
      Some (DoRequest "DELETE" ("/images/" ++ name) None)
  | CallInspectImage name =>
      Some (DoRequest "GET" ("/images/" ++ name ++ "/json") None)
  | CallPushImage opts auth =>
      if PushImageOptions.Name opts =? "" then None
      else
        Some (StreamRequest
                "POST"
                ("/images/" ++ PushImageOptions.Name opts ++ "/push?"
                 ++ queryString
                      (PushImageOptions_fields
                         (PushImageOptions.with_Name "" opts)))
                (Some (BytesBuffer (json_Encode auth)))
                (PushImageOptions.OutputStream opts))
  | CallPullImage opts =>
      if PullImageOptions.Repository opts =? "" then None
      else
        Some (StreamRequest
                "POST"
                ("/images/create?"
                 ++ queryString (PullImageOptions_fields opts))
                None (PullImageOptions.OutputStream opts))
  | CallImportImage opts =>
      if ImportImageOptions.Repository opts =? "" then None
      else match ImportImage_prepare opts with
           | Ok opts' => Some (import_request opts')
           | Err _ => None
           end
  | CallBuildImage opts =>
      if BuildImageOptions.Remote opts =? "" then None
      else
        let opts' :=
          if BuildImageOptions.Name opts =? ""
          then BuildImageOptions.with_Name (BuildImageOptions.Remote opts) opts
          else opts in
        match BuildImageOptions.OutputStream opts' with
        | None => None
        | Some _ =>
            Some (StreamRequest
                    "POST"
                    ("/build?" ++ queryString (BuildImageOptions_fields opts'))
                    None (BuildImageOptions.OutputStream opts'))
        end
  | CallGetImageTarball imageName w =>
      Some (StreamRequest "GET" ("/images/" ++ imageName ++ "/get") None w)
  | CallPostImageTarball r =>
      Some (StreamRequest "POST" "/images/load" r None)
  | CallSetImageTag imageName tag force =>
      Some (StreamRequest
              "POST"
              ("/images/" ++ imageName ++ "/tag?"
               ++ queryString
                    (TagImageOptions_fields (TagImageOptions.Build tag force)))
              None None)
  end.

Definition sent (r : option Request) : list Request :=
  match r with
  | Some req => [req]
  | None => []
  end.

(** The calls that go through [do]. *)
Definition do_based (k : Call) : bool :=
  match k with
  | CallListImages _ => true
  | CallRemoveImage _ => true
  | CallInspectImage _ => true
  | _ => false
  end.

(** ** A concrete environment

    Used to run the operations on explicit inputs.  The encoder skips fields
    tagged [-] and zero values and writes the others as [key=value] joined by
    [&], the key being the [qs] tag or else the field name.  The URL parser
    recognises the two schemes [isUrl] asks about.  The file system holds one
    sound file, one file that fails after its first byte, and one directory. *)
Module Sample.

Definition key (f : qsField) : string :=
  if qsTag f =? "" then fieldName f else qsTag f.

Definition item (f : qsField) : list string :=
  if qsTag f =? "-" then []
  else match fieldValue f with
       | QString s => if s =? "" then [] else [key f ++ "=" ++ s]
       | QBool b => if b then [key f ++ "=1"] else []
       | QReader _ => []
       | QWriter _ => []
       end.

Definition encode (fs : list qsField) : string :=
  String.concat "&" (flat_map item fs).

Definition parse (u : string) : result URL :=
  if prefix "http://" u then Ok (MkURL "http")
  else if prefix "https://" u then Ok (MkURL "https")
  else Ok (MkURL "").

Definition sound_file : File := MkFile [x01; x02; x03] None.

Definition worn_file : File :=
  MkFile [x01; x02; x03]
         (Some (1, ForeignError "read /srv/worn.tar: input/output error")).

Definition directory : File :=
  MkFile [] (Some (0, ForeignError "read /srv: is a directory")).

Definition open (name : string) : result File :=
  if name =? "/srv/image.tar" then Ok sound_file
  else if name =? "/srv/worn.tar" then Ok worn_file
  else if name =? "/srv" then Ok directory
  else Err (ForeignError ("open " ++ name ++ ": no such file or directory")).

Definition decode_images (body : bytes) : result (list APIImages.t) :=
  match body with
  | [] => Err (ForeignError "unexpected end of JSON input")
  | _ => Ok []
  end.

Definition decode_image (body : bytes) : result string :=
  match body with
  | [] => Err (ForeignError "unexpected end of JSON input")
  | _ => Ok "image"
  end.

Definition runtime : Runtime :=
  MkRuntime string encode decode_images decode_image
            (fun _ => [x7b; x7d; x0a]) parse open.

(** A daemon that accepts everything. *)
Definition willing : Client :=
  MkClient (fun _ _ _ _ => ([x5b; x5d], 200%Z, None))
           (fun _ _ _ _ _ => None).

(** A daemon that answers 404 to everything. *)
Definition not_found : error := ForeignError "API error (404): no such image".

Definition unaware : Client :=
  MkClient (fun _ _ _ _ => ([], 404%Z, Some not_found))
           (fun _ _ _ _ _ => Some not_found).



Definition no_auth : AuthConfiguration.t := AuthConfiguration.Build "" "" "".

Definition out : option io_Writer := Some (CallerWriter 1).

Definition inp : option io_Reader := Some (CallerReader 2).

End Sample.

(** ** Running the monad *)

(** Unfolds an operation down to the replies of the transport. *)
Ltac run :=
  cbv beta delta
      [ListImages RemoveImage InspectImage PushImage PullImage createImage
       ImportImage BuildImage GetImageTarball PostImageTarball SetImageTag
       perform bind ret do stream] iota zeta.

(** Splits the conjunctions, disjunctions and existentials among the
    hypotheses. *)
Ltac break_logic :=
  repeat match goal with
         | H : _ /\ _ |- _ => destruct H
         | H : _ \/ _ |- _ => destruct H
         | H : exists _, _ |- _ => destruct H
         end.

(** Names the three components of the reply of [do] in the goal. *)
Ltac case_reply body status err :=
  match goal with
  | |- context [do_reply ?c ?tr ?m ?p ?d] =>
      destruct (do_reply c tr m p d) as [[body status] err]
  end.

(** The request of a call, when there is one, by cases on the call. *)
Ltac request_cases H :=
  repeat match type of H with
         | (if ?b then _ else _) = Some _ => destruct b
         | match ?x with _ => _ end = Some _ => destruct x
         | context [if ?b then _ else _] => destruct b
         end;
  try discriminate H; inversion H; subst; clear H.

Lemma do_run (c : Client) (method path : string) (data : option bytes)
      (tr : list Request) :
  do c method path data tr =
  (do_reply c tr method path data, (tr ++ [DoRequest method path data])%list).
Proof. reflexivity. Qed.

Lemma stream_run (c : Client) (method path : string)
      (input : option io_Reader) (output : option io_Writer)
      (tr : list Request) :
  stream c method path input output tr =
  (stream_reply c tr method path input output,
   (tr ++ [StreamRequest method path input output])%list).
Proof. reflexivity. Qed.

Lemma invoked_once (tr : list Request) (req : Request) :
  invoked 1 tr (tr ++ [req]).
Proof. exists [req]. split; reflexivity. Qed.

Lemma invoked_never (tr : list Request) : invoked 0 tr tr.
Proof. exists []. split; [ now rewrite app_nil_r | reflexivity ]. Qed.

Create HintDb trace.
#[local] Hint Resolve invoked_once invoked_never : trace.

(** ** Listing *)

(** The path [ListImages] builds. *)
Lemma ListImages_path (all : bool) :
  (if all then "/images/json?all=" ++ "1" else "/images/json?all=" ++ "0")
  = (if all then "/images/json?all=1" else "/images/json?all=0").
Proof. destruct all; reflexivity. Qed.

(** C6.  [ListImages all] sends one GET request, without body, to
    [/images/json?all=1] when [all] is true and to [/images/json?all=0]
    otherwise.  When the transport answers without error and the body decodes,
    the result is the decoded list itself; the call returns an error, and no
    list, exactly when the transport answers with an error or the decoding
    fails, and that error is the transport's, respectively the decoder's. *)
Theorem ListImages_request_and_result :
  forall (rt : Runtime) (c : Client) (all : bool) (tr : list Request),
    let path := if all then "/images/json?all=1" else "/images/json?all=0" in
    let body := fst (fst (do_reply c tr "GET" path None)) in
    let err := snd (do_reply c tr "GET" path None) in
    snd (ListImages c all tr) = (tr ++ [DoRequest "GET" path None])%list
    /\ (forall images,
           fst (ListImages c all tr) = Ok images <->
           err = None /\ json_Unmarshal_APIImages body = Ok images)
    /\ (forall e,
           fst (ListImages c all tr) = Err e <->
           err = Some e \/ (err = None /\ json_Unmarshal_APIImages body = Err e))
    /\ ((exists e, fst (ListImages c all tr) = Err e) <->
        err <> None \/ exists e, json_Unmarshal_APIImages body = Err e).
Proof.
  intros rt c all tr path body err.
  unfold ListImages. rewrite ListImages_path. fold path.
  unfold bind. rewrite do_run.
  subst body err.
  destruct (do_reply c tr "GET" path None) as [[body status] err]. cbn [fst snd].
  destruct err as [e0|];
    [ | destruct (json_Unmarshal_APIImages body) as [images0|e0] eqn:Hdec ];
    cbn; repeat split; intros; break_logic;
    solve [ congruence | left; congruence | right; split; congruence
          | left; discriminate | right; eauto | eauto ].
Qed.

(** ** Import: how the options are rewritten *)

(** The three ways through the two conditional blocks of [ImportImage]. *)
Lemma ImportImage_prepare_eq {rt : Runtime} (opts : ImportImageOptions.t) :
  ImportImage_prepare opts =
  if ImportImageOptions.Source opts =? "-" then Ok opts
  else if isUrl (ImportImageOptions.Source opts)
       then Ok (ImportImageOptions.with_InputStream None opts)
       else match os_Open (ImportImageOptions.Source opts) with
            | Err e => Err e
            | Ok f =>
                Ok (ImportImageOptions.Build
                      (ImportImageOptions.Repository opts) "-"
                      (Some (BytesBuffer (fst (ioutil_ReadAll f))))
                      (ImportImageOptions.OutputStream opts))
            end.
Proof.
  unfold ImportImage_prepare.
  destruct (ImportImageOptions.Source opts =? "-") eqn:Hdash; cbn.
  - rewrite Hdash. reflexivity.
  - rewrite Hdash. cbn.
    destruct (isUrl (ImportImageOptions.Source opts)); cbn; [ reflexivity | ].
    destruct (os_Open (ImportImageOptions.Source opts)) as [f|e];
      [ | reflexivity ].
    destruct (ioutil_ReadAll f) as [b r]. reflexivity.
Qed.

Lemma is_local_path_eq {rt : Runtime} (source : string) :
  is_local_path source =
  if source =? "-" then false else negb (isUrl source).
Proof. unfold is_local_path. destruct (source =? "-"); reflexivity. Qed.

(** ** No retries *)

(** C7.  Whatever the operation and its arguments, a call invokes the
    transport exactly once when the local validation passes and, for an import
    from a local path, the file opens; it does not invoke it at all
    otherwise.  So no call invokes the transport twice. *)
Theorem transport_invoked_at_most_once :
  forall (rt : Runtime) (c : Client) (k : Call) (tr : list Request),
    invoked (if validation_passes k && file_opens k then 1 else 0)
            tr (snd (perform c k tr)).
Proof.
  intros rt c k tr.
  destruct k as [all | name | name | opts auth | opts | opts | opts
                 | imageName w | r | imageName tag force];
    cbn [validation_passes file_opens andb].
  - run. case_reply body status err; destruct err as [e|]; cbn;
      [ | destruct (json_Unmarshal_APIImages body) ]; cbn; auto with trace.
  - run. case_reply body status err; cbn.
    destruct (status =? http_StatusNotFound)%Z; cbn; auto with trace.
  - run. case_reply body status err; cbn.
    destruct (status =? http_StatusNotFound)%Z; cbn; [ auto with trace | ].
    destruct err; [ | destruct (json_Unmarshal_Image body) ];
      cbn; auto with trace.
  - run. destruct (PushImageOptions.Name opts =? ""); cbn; auto with trace.
  - run. destruct (PullImageOptions.Repository opts =? ""); cbn;
      auto with trace.
  - run. destruct (ImportImageOptions.Repository opts =? ""); cbn;
      [ auto with trace | ].
    rewrite ImportImage_prepare_eq, is_local_path_eq.
    destruct (ImportImageOptions.Source opts =? "-"); cbn; [ auto with trace | ].
    destruct (isUrl (ImportImageOptions.Source opts)); cbn;
      [ auto with trace | ].
    destruct (os_Open (ImportImageOptions.Source opts)); cbn; auto with trace.
  - run. destruct (BuildImageOptions.Remote opts =? ""); cbn;
      [ auto with trace | ].
    destruct (BuildImageOptions.Name opts =? ""); cbn;
      destruct (BuildImageOptions.OutputStream opts); cbn; auto with trace.
  - run. cbn. auto with trace.
  - run. cbn. auto with trace.
  - run. cbn. auto with trace.
Qed.

(** ** Build: local validation *)

(** C4.  [BuildImage] with an empty [Remote] returns [ErrMissingRepo] and
    leaves the trace of requests as it was; with a non-empty [Remote] and a
    nil [OutputStream] it returns [ErrMissingOutputStream], again without any
    request. *)
Theorem BuildImage_fails_before_any_request :
  forall (rt : Runtime) (c : Client) (opts : BuildImageOptions.t)
         (tr : list Request),
    (BuildImageOptions.Remote opts = "" ->
     BuildImage c opts tr = (Some ErrMissingRepo, tr))
    /\ (BuildImageOptions.Remote opts <> "" ->
        BuildImageOptions.OutputStream opts = None ->
        BuildImage c opts tr = (Some ErrMissingOutputStream, tr)).
Proof.
  intros rt c opts tr. split.
  - intros Hremote. unfold BuildImage. rewrite Hremote. reflexivity.
  - intros Hremote Hout. unfold BuildImage.
    apply String.eqb_neq in Hremote. rewrite Hremote.
    destruct (BuildImageOptions.Name opts =? ""); cbn; rewrite Hout;
      reflexivity.
Qed.

Lemma BuildImage_fails_before_any_request_witness :
  BuildImage (rt := Sample.runtime) Sample.willing
             (BuildImageOptions.Build "img" "" false Sample.out) []
  = (Some ErrMissingRepo, [])
  /\ BuildImage (rt := Sample.runtime) Sample.willing
                (BuildImageOptions.Build "" "github.com/user/repo" true None)
                []
     = (Some ErrMissingOutputStream, []).
Proof.
  split.
  - apply (proj1 (BuildImage_fails_before_any_request
                    Sample.runtime Sample.willing
                    (BuildImageOptions.Build "img" "" false Sample.out) [])).
    reflexivity.
  - apply (proj2 (BuildImage_fails_before_any_request
                    Sample.runtime Sample.willing
                    (BuildImageOptions.Build "" "github.com/user/repo" true None)
                    [])).
    + cbn. discriminate.
    + reflexivity.
Defined.

(** ** The status code 404 *)

Lemma app_single_inj (tr : list Request) (a b : Request) :
  (tr ++ [a])%list = (tr ++ [b])%list -> a = b.
Proof. intros H. apply app_inv_head in H. now inversion H. Qed.

Lemma app_single_neq (tr : list Request) (a : Request) :
  tr <> (tr ++ [a])%list.
Proof.
  intros H. apply (f_equal (@length Request)) in H.
  rewrite length_app in H. cbn in H. lia.
Qed.





(** ** The failure kinds the binding signals itself *)

(** A call whose local validation fails sends nothing and returns the
    validation error. *)
Lemma validation_failure {rt : Runtime} (c : Client) (k : Call)
      (tr : list Request) :
  validation_passes k = false ->
  perform c k tr = (Some (validation_error k), tr).
Proof.
  destruct k as [all | name | name | opts auth | opts | opts | opts
                 | imageName w | r | imageName tag force];
    cbn [validation_passes validation_error]; try discriminate; run.
  - destruct (PushImageOptions.Name opts =? ""); [ reflexivity | discriminate ].
  - destruct (PullImageOptions.Repository opts =? "");
      [ reflexivity | discriminate ].
  - destruct (ImportImageOptions.Repository opts =? "");
      [ reflexivity | discriminate ].
  - destruct (BuildImageOptions.Remote opts =? ""); [ reflexivity | ].
    destruct (BuildImageOptions.Name opts =? ""); cbn;
      destruct (BuildImageOptions.OutputStream opts);
      solve [ reflexivity | discriminate ].
Qed.








(** ** Import *)


(** Reading a file with a read fault yields the bytes before the fault, and
    the error. *)
Lemma ioutil_ReadAll_fault (f : File) (n : nat) (e : error) :
  read_fault f = Some (n, e) ->
  ioutil_ReadAll f = (firstn n (contents f), Some e).
Proof. intros H. unfold ioutil_ReadAll. now rewrite H. Qed.

Lemma ImportImage_dispatch {rt : Runtime} (c : Client)
      (opts opts' : ImportImageOptions.t) (tr : list Request) :
  ImportImageOptions.Repository opts <> "" ->
  ImportImage_prepare opts = Ok opts' ->
  ImportImage c opts tr
  = (stream_reply c tr "POST"
       ("/images/create?" ++ queryString (ImportImageOptions_fields opts'))
       (ImportImageOptions.InputStream opts')
       (ImportImageOptions.OutputStream opts'),
     (tr ++ [import_request opts'])%list).
Proof.
  intros Hrepo Hprep. unfold ImportImage.
  apply String.eqb_neq in Hrepo. rewrite Hrepo, Hprep. reflexivity.
Qed.



(** A local path whose file does not open: the error of [os.Open], and no
    request. *)
Lemma ImportImage_open_fails {rt : Runtime} (c : Client)
      (opts : ImportImageOptions.t) (tr : list Request) (e : error) :
  ImportImageOptions.Repository opts <> "" ->
  is_local_path (ImportImageOptions.Source opts) = true ->
  os_Open (ImportImageOptions.Source opts) = Err e ->
  ImportImage c opts tr = (Some e, tr).
Proof.
  intros Hrepo Hlocal Hopen. unfold ImportImage.
  apply String.eqb_neq in Hrepo. rewrite Hrepo.
  rewrite ImportImage_prepare_eq. rewrite is_local_path_eq in Hlocal.
  destruct (ImportImageOptions.Source opts =? "-"); [ discriminate | ].
  destruct (isUrl (ImportImageOptions.Source opts)); [ discriminate | ].
  now rewrite Hopen.
Qed.

(** A local path whose file opens: the source becomes ["-"] and the input
    stream a buffer over what [ioutil.ReadAll] returned. *)
Lemma ImportImage_local_file {rt : Runtime} (c : Client)
      (opts : ImportImageOptions.t) (tr : list Request) (f : File) :
  ImportImageOptions.Repository opts <> "" ->
  is_local_path (ImportImageOptions.Source opts) = true ->
  os_Open (ImportImageOptions.Source opts) = Ok f ->
  snd (ImportImage c opts tr)
  = (tr ++ [import_request
              (ImportImageOptions.Build
                 (ImportImageOptions.Repository opts) "-"
                 (Some (BytesBuffer (fst (ioutil_ReadAll f))))
                 (ImportImageOptions.OutputStream opts))])%list.
Proof.
  intros Hrepo Hlocal Hopen.
  rewrite is_local_path_eq in Hlocal.
  erewrite ImportImage_dispatch; [ reflexivity | exact Hrepo | ].
  rewrite ImportImage_prepare_eq.
  destruct (ImportImageOptions.Source opts =? "-"); [ discriminate | ].
  destruct (isUrl (ImportImageOptions.Source opts)); [ discriminate | ].
  now rewrite Hopen.
Qed.


(** A local path whose file opens and then fails to read: the error of
    [ioutil.ReadAll] is not looked at, and the request carries the bytes read
    before the fault. *)
Lemma ImportImage_read_fault {rt : Runtime} (c : Client)
      (opts : ImportImageOptions.t) (tr : list Request) (f : File)
      (n : nat) (e : error) :
  ImportImageOptions.Repository opts <> "" ->
  is_local_path (ImportImageOptions.Source opts) = true ->
  os_Open (ImportImageOptions.Source opts) = Ok f ->
  read_fault f = Some (n, e) ->
  snd (ImportImage c opts tr)
  = (tr ++ [import_request
              (ImportImageOptions.Build
                 (ImportImageOptions.Repository opts) "-"
                 (Some (BytesBuffer (firstn n (contents f))))
                 (ImportImageOptions.OutputStream opts))])%list.
Proof.
  intros Hrepo Hlocal Hopen Hfault.
  rewrite (ImportImage_local_file c opts tr f Hrepo Hlocal Hopen).
  now rewrite (ioutil_ReadAll_fault f n e Hfault).
Qed.

(** No request of an import whose source is not ["-"] carries a reader of
    the caller. *)
Lemma ImportImage_drops_caller_reader {rt : Runtime} (c : Client)
      (opts : ImportImageOptions.t) (tr : list Request)
      (method path : string) (input : option io_Reader)
      (output : option io_Writer) (h : nat) :
  ImportImageOptions.Source opts <> "-" ->
  snd (ImportImage c opts tr)
  = (tr ++ [StreamRequest method path input output])%list ->
  input <> Some (CallerReader h).
Proof.
  intros Hsrc. unfold ImportImage.
  destruct (ImportImageOptions.Repository opts =? "").
  - cbn. intros H. now apply app_single_neq in H.
  - rewrite ImportImage_prepare_eq.
    apply String.eqb_neq in Hsrc. rewrite Hsrc.
    destruct (isUrl (ImportImageOptions.Source opts)).
    + cbn. intros H. apply app_single_inj in H. inversion H. discriminate.
    + destruct (os_Open (ImportImageOptions.Source opts)); cbn; intros H.
      * apply app_single_inj in H. inversion H. discriminate.
      * now apply app_single_neq in H.
Qed.

(** C3 at a file whose reading fails.  The file [/srv/worn.tar] holds three
    bytes and fails after the first.  [ImportImage] drops the error of
    [ioutil.ReadAll]: it returns no error and has sent a request whose input
    stream holds the first byte only, not the contents of the file. *)
Theorem ImportImage_read_fault_sends_truncated_file :
  is_local_path (rt := Sample.runtime) "/srv/worn.tar" = true
  /\ os_Open (Runtime := Sample.runtime) "/srv/worn.tar" = Ok Sample.worn_file
  /\ contents Sample.worn_file = [x01; x02; x03]
  /\ snd (ioutil_ReadAll Sample.worn_file) <> None
  /\ ImportImage (rt := Sample.runtime) Sample.willing
                 (ImportImageOptions.Build "repo" "/srv/worn.tar" None
                                           Sample.out) []
     = (None,
        [StreamRequest "POST" "/images/create?repo=repo&fromSrc=-"
                       (Some (BytesBuffer [x01])) Sample.out]).
Proof.
  repeat apply conj; try reflexivity. cbn. discriminate.
Qed.

(** C10 at the same kind of file, with a reader supplied by the caller.  The
    reader of the caller is dropped, as C10 says, but what goes out in its
    place is a buffer over the first byte, not over the contents of the
    file. *)
Theorem ImportImage_read_fault_replaces_stream_by_prefix :
  ImportImage (rt := Sample.runtime) Sample.willing
              (ImportImageOptions.Build "repo" "/srv/worn.tar" Sample.inp
                                        Sample.out) []
  = (None,
     [StreamRequest "POST" "/images/create?repo=repo&fromSrc=-"
                    (Some (BytesBuffer [x01])) Sample.out])
  /\ os_Open (Runtime := Sample.runtime) "/srv/worn.tar" = Ok Sample.worn_file
  /\ BytesBuffer [x01] <> BytesBuffer (contents Sample.worn_file).
Proof.
  repeat apply conj; try reflexivity. cbn. discriminate.
Qed.

(** ** Streams *)




(** ** Push: the name and the query string *)

(** C8.  [PushImage] with a non-empty [Name] sends one request whose path is
    [/images/{name}/push?] followed by the query string, and the query string
    is the encoding of the options with the [Name] field cleared: of the
    fields handed to the encoder, [Name] is empty and [OutputStream] is
    tagged [-], so [Registry] is the only one left to carry a value.  The
    same query string results whatever the name is. *)
Theorem PushImage_name_only_in_path :
  forall (rt : Runtime) (c : Client) (opts : PushImageOptions.t)
         (auth : AuthConfiguration.t) (tr : list Request),
    PushImageOptions.Name opts <> "" ->
    let qs :=
      queryString
        [ Field "Name" "" (QString "");
          Field "Registry" "" (QString (PushImageOptions.Registry opts));
          Field "OutputStream" "-"
                (QWriter (PushImageOptions.OutputStream opts)) ] in
    let input := Some (BytesBuffer (json_Encode auth)) in
    let output := PushImageOptions.OutputStream opts in
    PushImage c opts auth tr
    = (stream_reply c tr "POST"
         ("/images/" ++ PushImageOptions.Name opts ++ "/push?" ++ qs)
         input output,
       (tr ++ [StreamRequest
                 "POST"
                 ("/images/" ++ PushImageOptions.Name opts ++ "/push?" ++ qs)
                 input output])%list)
    /\ (forall name,
           name <> "" ->
           snd (PushImage c (PushImageOptions.with_Name name opts) auth tr)
           = (tr ++ [StreamRequest "POST"
                       ("/images/" ++ name ++ "/push?" ++ qs)
                       input output])%list).
Proof.
  intros rt c opts auth tr Hname qs input output. split.
  - unfold PushImage. apply String.eqb_neq in Hname. rewrite Hname.
    reflexivity.
  - intros name Hname'. unfold PushImage. cbn [PushImageOptions.Name
      PushImageOptions.with_Name].
    apply String.eqb_neq in Hname'. rewrite Hname'. reflexivity.
Qed.

Lemma PushImage_name_only_in_path_witness :
  PushImage (rt := Sample.runtime) Sample.willing
            (PushImageOptions.Build "busybox" "registry.example.com"
                                    Sample.out)
            Sample.no_auth []
  = (None,
     [StreamRequest "POST" "/images/busybox/push?Registry=registry.example.com"
                    (Some (BytesBuffer [x7b; x7d; x0a])) Sample.out]).
Proof.
  apply (proj1 (PushImage_name_only_in_path
                  Sample.runtime Sample.willing
                  (PushImageOptions.Build "busybox" "registry.example.com"
                                          Sample.out)
                  Sample.no_auth [] ltac:(cbn; discriminate))).
Defined.

(** ** Build: the default name *)

(** C9.  [BuildImage] with a non-empty [Remote] and an empty [Name] hands the
    encoder the options with [Name], the field tagged [t], set to the value
    of [Remote]: when an output stream is given, the one request sent has the
    path [/build?] followed by that encoding; when none is given, no request
    is sent at all. *)
Theorem BuildImage_defaults_name_to_remote :
  forall (rt : Runtime) (c : Client) (opts : BuildImageOptions.t)
         (tr : list Request),
    BuildImageOptions.Remote opts <> "" ->
    BuildImageOptions.Name opts = "" ->
    let path :=
      "/build?"
      ++ queryString
           [ Field "Name" "t" (QString (BuildImageOptions.Remote opts));
             Field "Remote" "remote" (QString (BuildImageOptions.Remote opts));
             Field "SuppressOutput" "q"
                   (QBool (BuildImageOptions.SuppressOutput opts));
             Field "OutputStream" "-"
                   (QWriter (BuildImageOptions.OutputStream opts)) ] in
    BuildImage c opts tr
    = match BuildImageOptions.OutputStream opts with
      | Some w =>
          (stream_reply c tr "POST" path None (Some w),
           (tr ++ [StreamRequest "POST" path None (Some w)])%list)
      | None => (Some ErrMissingOutputStream, tr)
      end.
Proof.
  intros rt c opts tr Hremote Hname path. subst path.
  unfold BuildImage. apply String.eqb_neq in Hremote.
  rewrite Hremote, Hname.
  unfold BuildImageOptions_fields, BuildImageOptions.with_Name, bind, ret.
  cbn.
  destruct (BuildImageOptions.OutputStream opts); reflexivity.
Qed.

Lemma BuildImage_defaults_name_to_remote_witness :
  BuildImage (rt := Sample.runtime) Sample.willing
             (BuildImageOptions.Build "" "github.com/user/repo" false
                                      Sample.out) []
  = (None,
     [StreamRequest
        "POST" "/build?t=github.com/user/repo&remote=github.com/user/repo"
        None Sample.out]).
Proof.
  apply (BuildImage_defaults_name_to_remote
           Sample.runtime Sample.willing
           (BuildImageOptions.Build "" "github.com/user/repo" false Sample.out)
           [] ltac:(cbn; discriminate) eq_refl).
Defined.

(** ** Further properties of the operations *)

(** *** Strings *)

Lemma length_append (s t : string) :
  String.length (s ++ t) = String.length s + String.length t.
Proof. induction s as [|a s IH]; cbn; [ reflexivity | now rewrite IH ]. Qed.

Lemma append_assoc (s t u : string) : (s ++ t) ++ u = s ++ (t ++ u).
Proof. induction s as [|a s IH]; cbn; [ reflexivity | now rewrite IH ]. Qed.

Lemma append_inv_head (s t u : string) : s ++ t = s ++ u -> t = u.
Proof.
  induction s as [|a s IH]; cbn; intros H; [ exact H | ].
  inversion H. auto.
Qed.

Lemma append_inv_tail (t s1 s2 : string) : s1 ++ t = s2 ++ t -> s1 = s2.
Proof.
  revert s2. induction s1 as [|a s1 IH]; intros [|b s2] H; cbn in H.
  - reflexivity.
  - apply (f_equal String.length) in H. cbn in H.
    rewrite length_append in H. lia.
  - apply (f_equal String.length) in H. cbn in H.
    rewrite length_append in H. lia.
  - inversion H. f_equal. auto.
Qed.

Lemma prefix_empty (s : string) : prefix "" s = true.
Proof. destruct s; reflexivity. Qed.

(** *** The request of a call *)

(** What a call appends to the trace is its request, whatever the transport
    answers. *)
Lemma perform_trace {rt : Runtime} (c : Client) (k : Call)
      (tr : list Request) :
  snd (perform c k tr) = (tr ++ sent (request_of k))%list.
Proof.
  destruct k as [all | name | name | opts auth | opts | opts | opts
                 | imageName w | r | imageName tag force];
    cbn [request_of]; run.
  - rewrite ListImages_path.
    case_reply body status err; destruct err as [e|]; cbn;
      [ | destruct (json_Unmarshal_APIImages body) ]; reflexivity.
  - case_reply body status err; cbn.
    destruct (status =? http_StatusNotFound)%Z; reflexivity.
  - case_reply body status err; cbn.
    destruct (status =? http_StatusNotFound)%Z; cbn; [ reflexivity | ].
    destruct err; [ | destruct (json_Unmarshal_Image body) ]; reflexivity.
  - destruct (PushImageOptions.Name opts =? ""); cbn;
      [ now rewrite app_nil_r | reflexivity ].
  - destruct (PullImageOptions.Repository opts =? ""); cbn;
      [ now rewrite app_nil_r | reflexivity ].
  - destruct (ImportImageOptions.Repository opts =? ""); cbn;
      [ now rewrite app_nil_r | ].
    destruct (ImportImage_prepare opts); cbn;
      [ reflexivity | now rewrite app_nil_r ].
  - destruct (BuildImageOptions.Remote opts =? ""); cbn;
      [ now rewrite app_nil_r | ].
    destruct (BuildImageOptions.Name opts =? ""); cbn;
      destruct (BuildImageOptions.OutputStream opts); cbn;
      solve [ reflexivity | now rewrite app_nil_r ].
  - reflexivity.
  - reflexivity.
  - reflexivity.
Qed.

Lemma sent_single (tr : list Request) (r : option Request) (req : Request) :
  (tr ++ sent r)%list = (tr ++ [req])%list -> r = Some req.
Proof.
  intros H. apply app_inv_head in H.
  destruct r; cbn in H; [ now inversion H | discriminate ].
Qed.

(** *** Removal and inspection *)

(** X1.  [RemoveImage name] sends one DELETE request, without body, to
    [/images/{name}].  It returns no error exactly when the status is not 404
    and the transport reports no error: a status 404 is a failure even when
    the transport reports none.  The error it returns is [ErrNoSuchImage] on
    status 404, the error of the transport otherwise. *)
Theorem RemoveImage_request_and_result :
  forall (c : Client) (name : string) (tr : list Request),
    let reply := do_reply c tr "DELETE" ("/images/" ++ name) None in
    let status := snd (fst reply) in
    let err := snd reply in
    snd (RemoveImage c name tr)
    = (tr ++ [DoRequest "DELETE" ("/images/" ++ name) None])%list
    /\ (fst (RemoveImage c name tr) = None <->
        status <> 404%Z /\ err = None)
    /\ (forall e,
           fst (RemoveImage c name tr) = Some e <->
           (status = 404%Z /\ e = ErrNoSuchImage)
           \/ (status <> 404%Z /\ err = Some e)).
Proof.
  intros c name tr reply status err. subst status err reply.
  unfold RemoveImage, bind. rewrite do_run.
  destruct (do_reply c tr "DELETE" ("/images/" ++ name) None)
    as [[body status] err].
  cbn [fst snd]. unfold http_StatusNotFound.
  destruct (Z.eqb_spec status 404) as [Hstatus | Hstatus]; cbn;
    repeat split; intros; break_logic;
    solve [ congruence | discriminate | left; split; congruence
          | right; split; congruence | tauto ].
Qed.

(** X2.  [InspectImage name] sends one GET request, without body, to
    [/images/{name}/json].  It returns an image exactly when the status is
    not 404, the transport reports no error and the body decodes, and the
    image is the decoded one.  The status is looked at first: on 404 the
    result is [ErrNoSuchImage] whatever the error and the body are; then
    comes the error of the transport, then the error of the decoder. *)
Theorem InspectImage_request_and_result :
  forall (rt : Runtime) (c : Client) (name : string) (tr : list Request),
    let reply := do_reply c tr "GET" ("/images/" ++ name ++ "/json") None in
    let body := fst (fst reply) in
    let status := snd (fst reply) in
    let err := snd reply in
    snd (InspectImage c name tr)
    = (tr ++ [DoRequest "GET" ("/images/" ++ name ++ "/json") None])%list
    /\ (forall image,
           fst (InspectImage c name tr) = Ok image <->
           status <> 404%Z /\ err = None
           /\ json_Unmarshal_Image body = Ok image)
    /\ (forall e,
           fst (InspectImage c name tr) = Err e <->
           (status = 404%Z /\ e = ErrNoSuchImage)
           \/ (status <> 404%Z /\ err = Some e)
           \/ (status <> 404%Z /\ err = None
               /\ json_Unmarshal_Image body = Err e)).
Proof.
  intros rt c name tr reply body status err. subst body status err reply.
  unfold InspectImage, bind. rewrite do_run.
  destruct (do_reply c tr "GET" ("/images/" ++ name ++ "/json") None)
    as [[body status] err].
  cbn [fst snd]. unfold http_StatusNotFound.
  destruct (Z.eqb_spec status 404) as [Hstatus | Hstatus];
    [ | destruct err as [e0|];
        [ | destruct (json_Unmarshal_Image body) as [image0|e0] eqn:Hdec ] ];
    cbn; repeat split; intros; break_logic;
    solve [ congruence | discriminate | left; split; congruence
          | right; left; split; congruence
          | right; right; repeat split; congruence | tauto ].
Qed.

(** *** Properties of every operation *)

(** X3.  No operation reports success without having handed exactly one
    request to the transport: a call that returns a nil error has passed its
    local validation, has opened its file if it needed one, and has extended
    the trace by one request. *)
Theorem success_requires_a_request :
  forall (rt : Runtime) (c : Client) (k : Call) (tr : list Request),
    fst (perform c k tr) = None ->
    validation_passes k = true
    /\ file_opens k = true
    /\ exists req, snd (perform c k tr) = (tr ++ [req])%list.
Proof.
  intros rt c k tr Hnil.
  destruct (validation_passes k) eqn:Hvalid.
  2:{ rewrite (validation_failure c k tr Hvalid) in Hnil. discriminate. }
  rewrite perform_trace. revert Hnil.
  destruct k as [all | name | name | opts auth | opts | opts | opts
                 | imageName w | r | imageName tag force];
    cbn [validation_passes file_opens request_of] in *; intros Hnil;
    try (repeat split; eexists; reflexivity).
  - apply negb_true_iff in Hvalid. rewrite Hvalid.
    repeat split; eexists; reflexivity.
  - apply negb_true_iff in Hvalid. rewrite Hvalid.
    repeat split; eexists; reflexivity.
  - apply negb_true_iff in Hvalid. rewrite Hvalid.
    revert Hnil. unfold perform, ImportImage. rewrite Hvalid.
    rewrite ImportImage_prepare_eq, is_local_path_eq.
    destruct (ImportImageOptions.Source opts =? "-");
      [ intros _; repeat split; eexists; reflexivity | ].
    destruct (isUrl (ImportImageOptions.Source opts)); cbn [negb];
      [ intros _; repeat split; eexists; reflexivity | ].
    destruct (os_Open (ImportImageOptions.Source opts)).
    + intros _; repeat split; eexists; reflexivity.
    + discriminate.
  - apply andb_true_iff in Hvalid. destruct Hvalid as [Hremote Hout].
    apply negb_true_iff in Hremote. rewrite Hremote.
    destruct (BuildImageOptions.Name opts =? ""); cbn;
      destruct (BuildImageOptions.OutputStream opts); try discriminate;
      repeat split; eexists; reflexivity.
Qed.

Lemma success_requires_a_request_witness :
  validation_passes
    (CallPullImage (PullImageOptions.Build "busybox" "" Sample.out)) = true
  /\ file_opens (rt := Sample.runtime)
       (CallPullImage (PullImageOptions.Build "busybox" "" Sample.out)) = true
  /\ exists req,
      snd (perform (rt := Sample.runtime) Sample.willing
                   (CallPullImage
                      (PullImageOptions.Build "busybox" "" Sample.out)) [])
      = ([] ++ [req])%list.
Proof.
  apply (success_requires_a_request
           Sample.runtime Sample.willing
           (CallPullImage (PullImageOptions.Build "busybox" "" Sample.out))
           []).
  reflexivity.
Defined.

(** X4.  What an operation sends never depends on what the transport
    answers, nor on the requests sent before: run against any two clients
    after any two histories, a call appends the same requests to both
    traces. *)
Theorem requests_do_not_depend_on_replies :
  forall (rt : Runtime) (c c' : Client) (k : Call) (tr tr' : list Request),
  exists reqs,
    snd (perform c k tr) = (tr ++ reqs)%list
    /\ snd (perform c' k tr') = (tr' ++ reqs)%list.
Proof.
  intros rt c c' k tr tr'. exists (sent (request_of k)).
  split; apply perform_trace.
Qed.

(** X5.  The requests follow a fixed discipline.  A request sent through
    [do] never carries a body and is a GET or a DELETE; a request sent through
    [stream] is a GET or a POST.  DELETE is sent by [RemoveImage] only.  Every
    path starts with [/images/], except that of [BuildImage], which starts
    with [/build?]. *)
Theorem request_discipline :
  forall (rt : Runtime) (c : Client) (k : Call) (tr : list Request)
         (req : Request),
    snd (perform c k tr) = (tr ++ [req])%list ->
    match req with
    | DoRequest method _ data =>
        data = None /\ (method = "GET" \/ method = "DELETE")
    | StreamRequest method _ _ _ => method = "GET" \/ method = "POST"
    end
    /\ (request_method req = "DELETE" -> exists name, k = CallRemoveImage name)
    /\ (prefix "/images/" (request_path req) = true
        \/ (prefix "/build?" (request_path req) = true
            /\ exists opts, k = CallBuildImage opts)).
Proof.
  intros rt c k tr req H.
  rewrite perform_trace in H. apply sent_single in H.
  destruct k as [all | name | name | opts auth | opts | opts | opts
                 | imageName w | r | imageName tag force];
    cbn [request_of] in H; unfold import_request in H; request_cases H;
    cbn [request_method request_path];
    repeat apply conj;
    try solve [ reflexivity | left; reflexivity | right; reflexivity
              | discriminate | intros _; eexists; reflexivity
              | left; cbn; apply prefix_empty
              | right; split; [ cbn; apply prefix_empty | eexists; reflexivity ] ].
Qed.

Lemma request_discipline_witness :
  (None = (None : option bytes) /\ ("DELETE" = "GET" \/ "DELETE" = "DELETE"))
  /\ ("DELETE" = "DELETE" -> exists name, CallRemoveImage "busybox"
                                          = CallRemoveImage name)
  /\ (prefix "/images/" "/images/busybox" = true
      \/ (prefix "/build?" "/images/busybox" = true
          /\ exists opts, CallRemoveImage "busybox" = CallBuildImage opts)).
Proof.
  apply (request_discipline
           Sample.runtime Sample.willing (CallRemoveImage "busybox") []
           (DoRequest "DELETE" "/images/busybox" None)).
  reflexivity.
Defined.

(** *** Requests and the calls they come from *)

(** The path of a listing is never the path of an inspection. *)
Lemma list_path_is_no_inspect_path (all : bool) (name : string) :
  (if all then "/images/json?all=1" else "/images/json?all=0")
  <> "/images/" ++ name ++ "/json".
Proof.
  intros H.
  assert (Hlen : String.length name = 5).
  { apply (f_equal String.length) in H.
    cbn in H. rewrite length_append in H. destruct all; cbn in H; lia. }
  destruct name as [|a1 [|a2 [|a3 [|a4 [|a5 [|a6 name]]]]]];
    try discriminate Hlen.
  destruct all; cbn in H; inversion H.
Qed.

(** X6.  A request sent through [do] identifies the call it comes from:
    when two calls among [ListImages], [RemoveImage] and [InspectImage] send
    the same request, they are the same operation with the same argument. *)
Theorem do_request_identifies_call :
  forall (rt : Runtime) (c c' : Client) (k k' : Call) (tr : list Request),
    do_based k = true -> do_based k' = true ->
    snd (perform c k tr) = snd (perform c' k' tr) ->
    k = k'.
Proof.
  intros rt c c' k k' tr Hk Hk' H.
  rewrite !perform_trace in H. apply app_inv_head in H.
  destruct k as [all | name | name | | | | | | | ]; try discriminate Hk;
    destruct k' as [all' | name' | name' | | | | | | | ];
    try discriminate Hk'; cbn in H; inversion H as [Hpath].
  - destruct all, all'; solve [ reflexivity | discriminate Hpath ].
  - exfalso. apply (list_path_is_no_inspect_path all name').
    destruct all; cbn; now rewrite Hpath.
  - reflexivity.
  - exfalso. apply (list_path_is_no_inspect_path all' name).
    destruct all'; cbn; now rewrite <- Hpath.
  - apply append_inv_tail in Hpath. now subst.
Qed.

Lemma do_request_identifies_call_witness :
  CallInspectImage "busybox" = CallInspectImage "busybox".
Proof.
  apply (do_request_identifies_call
           Sample.runtime Sample.willing Sample.unaware
           (CallInspectImage "busybox") (CallInspectImage "busybox") []);
    reflexivity.
Defined.

(** X7.  The operations that put an image name into the path of a streamed
    request send different requests for different names, the other arguments
    being the same: [GetImageTarball], [SetImageTag], and [PushImage] with
    non-empty names. *)
Theorem streamed_request_identifies_name :
  forall (rt : Runtime) (c : Client) (tr : list Request) (n n' : string),
    n <> n' ->
    (forall w,
        snd (GetImageTarball c n w tr) <> snd (GetImageTarball c n' w tr))
    /\ (forall tag force,
           snd (SetImageTag c n tag force tr)
           <> snd (SetImageTag c n' tag force tr))
    /\ (forall opts auth,
           n <> "" -> n' <> "" ->
           snd (PushImage c (PushImageOptions.with_Name n opts) auth tr)
           <> snd (PushImage c (PushImageOptions.with_Name n' opts) auth tr)).
Proof.
  intros rt c tr n n' Hneq. repeat apply conj.
  - intros w H. unfold GetImageTarball in H. rewrite !stream_run in H.
    cbn [snd] in H. apply app_single_inj in H. inversion H as [Hpath].
    apply (append_inv_tail "/get") in Hpath. contradiction.
  - intros tag force H. unfold SetImageTag in H. rewrite !stream_run in H.
    cbn [snd] in H. apply app_single_inj in H. inversion H as [Hpath].
    apply append_inv_tail in Hpath. contradiction.
  - intros opts auth Hn Hn' H. unfold PushImage in H.
    cbn [PushImageOptions.Name PushImageOptions.with_Name
         PushImageOptions.Registry PushImageOptions.OutputStream] in H.
    apply String.eqb_neq in Hn, Hn'. rewrite Hn, Hn' in H.
    rewrite !stream_run in H. cbn [snd] in H.
    apply app_single_inj in H. inversion H as [Hpath].
    apply append_inv_tail in Hpath. contradiction.
Qed.

Lemma streamed_request_identifies_name_witness :
  snd (GetImageTarball Sample.willing "busybox" Sample.out [])
  <> snd (GetImageTarball Sample.willing "alpine" Sample.out []).
Proof.
  apply (proj1 (streamed_request_identifies_name
                  Sample.runtime Sample.willing [] "busybox" "alpine"
                  ltac:(discriminate))).
Defined.

(** *** Import and build *)

(** [isUrl] holds exactly of the strings that parse with scheme [http] or
    [https]. *)
Lemma isUrl_spec {rt : Runtime} (u : string) :
  isUrl u = true <->
  exists p, url_Parse u = Ok p /\ (Scheme p = "http" \/ Scheme p = "https").
Proof.
  unfold isUrl. destruct (url_Parse u) as [p|e]; split.
  - intros H. exists p. split; [ reflexivity | ].
    apply orb_true_iff in H. now rewrite !String.eqb_eq in H.
  - intros [p' [Hp H]]. inversion Hp; subst.
    apply orb_true_iff. now rewrite !String.eqb_eq.
  - discriminate.
  - intros [p [Hp _]]. discriminate.
Qed.

(** X8.  [ImportImage] treats every source other than ["-"] that does not
    parse as an http or https URL as a file name, also one with another
    scheme or one that does not parse at all: it opens that file, returns the
    error of [os.Open] without sending anything when it does not open, and
    otherwise sends the bytes read from it under the source ["-"]. *)
Theorem ImportImage_other_sources_are_files :
  forall (rt : Runtime) (c : Client) (opts : ImportImageOptions.t)
         (tr : list Request),
    ImportImageOptions.Repository opts <> "" ->
    ImportImageOptions.Source opts <> "-" ->
    (forall p,
        url_Parse (ImportImageOptions.Source opts) = Ok p ->
        Scheme p <> "http" /\ Scheme p <> "https") ->
    match os_Open (ImportImageOptions.Source opts) with
    | Err e => ImportImage c opts tr = (Some e, tr)
    | Ok f =>
        snd (ImportImage c opts tr)
        = (tr ++ [import_request
                    (ImportImageOptions.Build
                       (ImportImageOptions.Repository opts) "-"
                       (Some (BytesBuffer (fst (ioutil_ReadAll f))))
                       (ImportImageOptions.OutputStream opts))])%list
    end.
Proof.
  intros rt c opts tr Hrepo Hsrc Hscheme.
  assert (Hlocal : is_local_path (ImportImageOptions.Source opts) = true).
  { rewrite is_local_path_eq.
    apply String.eqb_neq in Hsrc. rewrite Hsrc.
    apply negb_true_iff. apply not_true_is_false. intros Hurl.
    apply isUrl_spec in Hurl. destruct Hurl as [p [Hp Hhttp]].
    destruct (Hscheme p Hp). tauto. }
  destruct (os_Open (ImportImageOptions.Source opts)) as [f|e] eqn:Hopen.
  - now apply ImportImage_local_file.
  - now apply ImportImage_open_fails.
Qed.

Lemma ImportImage_other_sources_are_files_witness :
  ImportImage (rt := Sample.runtime) Sample.willing
              (ImportImageOptions.Build "repo" "ftp://example.com/image.tar"
                                        None Sample.out) []
  = (Some (ForeignError
             "open ftp://example.com/image.tar: no such file or directory"),
     []).
Proof.
  apply (ImportImage_other_sources_are_files
           Sample.runtime Sample.willing
           (ImportImageOptions.Build "repo" "ftp://example.com/image.tar"
                                     None Sample.out) []).
  - cbn. discriminate.
  - cbn. discriminate.
  - cbn. intros p Hp. inversion Hp. cbn. split; discriminate.
Defined.

(** X9.  The source that [ImportImage] hands to the encoder is ["-"] or an
    http or https URL, never the name of a local file; with a URL the input
    stream is nil.  Repository and output stream are those of the caller. *)
Theorem ImportImage_source_on_the_wire :
  forall (rt : Runtime) (c : Client) (opts : ImportImageOptions.t)
         (tr : list Request) (req : Request),
    snd (ImportImage c opts tr) = (tr ++ [req])%list ->
    exists opts',
      req = import_request opts'
      /\ ImportImageOptions.Repository opts'
         = ImportImageOptions.Repository opts
      /\ ImportImageOptions.OutputStream opts'
         = ImportImageOptions.OutputStream opts
      /\ (ImportImageOptions.Source opts' = "-"
          \/ (ImportImageOptions.Source opts' = ImportImageOptions.Source opts
              /\ isUrl (ImportImageOptions.Source opts') = true
              /\ ImportImageOptions.InputStream opts' = None)).
Proof.
  intros rt c opts tr req. unfold ImportImage.
  destruct (ImportImageOptions.Repository opts =? "").
  { cbn. intros H. now apply app_single_neq in H. }
  rewrite ImportImage_prepare_eq.
  destruct (ImportImageOptions.Source opts =? "-") eqn:Hdash.
  - cbn. intros H. apply app_single_inj in H. subst req.
    exists opts. apply String.eqb_eq in Hdash.
    repeat apply conj; try reflexivity. now left.
  - destruct (isUrl (ImportImageOptions.Source opts)) eqn:Hurl.
    + cbn. intros H. apply app_single_inj in H. subst req.
      exists (ImportImageOptions.with_InputStream None opts).
      repeat apply conj; try reflexivity.
      right. repeat apply conj; try reflexivity. exact Hurl.
    + destruct (os_Open (ImportImageOptions.Source opts)) as [f|e]; cbn;
        intros H.
      * apply app_single_inj in H. subst req.
        exists (ImportImageOptions.Build
                  (ImportImageOptions.Repository opts) "-"
                  (Some (BytesBuffer (fst (ioutil_ReadAll f))))
                  (ImportImageOptions.OutputStream opts)).
        repeat apply conj; try reflexivity. now left.
      * now apply app_single_neq in H.
Qed.

Lemma ImportImage_source_on_the_wire_witness :
  exists opts',
    StreamRequest "POST" "/images/create?repo=repo&fromSrc=-"
                  (Some (BytesBuffer [x01; x02; x03])) Sample.out
    = import_request (rt := Sample.runtime) opts'
    /\ ImportImageOptions.Repository opts' = "repo"
    /\ ImportImageOptions.OutputStream opts' = Sample.out
    /\ (ImportImageOptions.Source opts' = "-"
        \/ (ImportImageOptions.Source opts' = "/srv/image.tar"
            /\ isUrl (rt := Sample.runtime)
                     (ImportImageOptions.Source opts') = true
            /\ ImportImageOptions.InputStream opts' = None)).
Proof.
  apply (ImportImage_source_on_the_wire
           Sample.runtime Sample.willing
           (ImportImageOptions.Build "repo" "/srv/image.tar" Sample.inp
                                     Sample.out) []).
  reflexivity.
Defined.

(** X10.  What [ImportImage] sends for a local file that opens is made of
    bytes of that file: the buffer holds a prefix of the contents, and the
    whole contents when reading does not fail. *)
Theorem ImportImage_sends_bytes_of_the_file :
  forall (rt : Runtime) (c : Client) (opts : ImportImageOptions.t)
         (tr : list Request) (f : File),
    ImportImageOptions.Repository opts <> "" ->
    is_local_path (ImportImageOptions.Source opts) = true ->
    os_Open (ImportImageOptions.Source opts) = Ok f ->
    exists b rest path,
      contents f = (b ++ rest)%list
      /\ snd (ImportImage c opts tr)
         = (tr ++ [StreamRequest "POST" path (Some (BytesBuffer b))
                     (ImportImageOptions.OutputStream opts)])%list
      /\ (read_fault f = None -> rest = []).
Proof.
  intros rt c opts tr f Hrepo Hlocal Hopen.
  rewrite (ImportImage_local_file c opts tr f Hrepo Hlocal Hopen).
  unfold ioutil_ReadAll.
  destruct (read_fault f) as [[n e]|].
  - exists (firstn n (contents f)), (skipn n (contents f)). eexists.
    repeat split.
    + symmetry. apply firstn_skipn.
    + discriminate.
  - exists (contents f), []. eexists. repeat split.
    now rewrite app_nil_r.
Qed.

Lemma ImportImage_sends_bytes_of_the_file_witness :
  exists b rest path,
    contents Sample.worn_file = (b ++ rest)%list
    /\ snd (ImportImage (rt := Sample.runtime) Sample.willing
                        (ImportImageOptions.Build "repo" "/srv/worn.tar" None
                                                  Sample.out) [])
       = ([] ++ [StreamRequest "POST" path (Some (BytesBuffer b))
                   Sample.out])%list
    /\ (read_fault Sample.worn_file = None -> rest = []).
Proof.
  apply (ImportImage_sends_bytes_of_the_file
           Sample.runtime Sample.willing
           (ImportImageOptions.Build "repo" "/srv/worn.tar" None Sample.out)
           [] Sample.worn_file).
  - cbn. discriminate.
  - reflexivity.
  - reflexivity.
Defined.

(** X11.  A build request always names the image: whenever [BuildImage]
    sends a request, the options it hands to the encoder have a non-empty
    [Name], which is the name of the caller when there is one and the remote
    otherwise, and the other fields are those of the caller, with a non-empty
    [Remote] and an output stream. *)
Theorem BuildImage_sends_a_name :
  forall (rt : Runtime) (c : Client) (opts : BuildImageOptions.t)
         (tr : list Request) (req : Request),
    snd (BuildImage c opts tr) = (tr ++ [req])%list ->
    exists opts',
      req = StreamRequest
              "POST"
              ("/build?" ++ queryString (BuildImageOptions_fields opts'))
              None (BuildImageOptions.OutputStream opts)
      /\ BuildImageOptions.Name opts' <> ""
      /\ BuildImageOptions.Name opts'
         = (if BuildImageOptions.Name opts =? ""
            then BuildImageOptions.Remote opts
            else BuildImageOptions.Name opts)
      /\ BuildImageOptions.Remote opts' = BuildImageOptions.Remote opts
      /\ BuildImageOptions.Remote opts <> ""
      /\ BuildImageOptions.SuppressOutput opts'
         = BuildImageOptions.SuppressOutput opts
      /\ BuildImageOptions.OutputStream opts'
         = BuildImageOptions.OutputStream opts
      /\ BuildImageOptions.OutputStream opts <> None.
Proof.
  intros rt c opts tr req. unfold BuildImage.
  destruct (BuildImageOptions.Remote opts =? "") eqn:Hremote.
  { cbn. intros H. now apply app_single_neq in H. }
  apply String.eqb_neq in Hremote.
  destruct (BuildImageOptions.Name opts =? "") eqn:Hname; cbn;
    destruct (BuildImageOptions.OutputStream opts) as [w|] eqn:Hout; cbn;
    intros H; try (now apply app_single_neq in H);
    apply app_single_inj in H; subst req.
  - exists (BuildImageOptions.with_Name (BuildImageOptions.Remote opts) opts).
    cbn. rewrite Hout. repeat split; trivial. discriminate.
  - exists opts. rewrite Hout. apply String.eqb_neq in Hname.
    repeat split; trivial. discriminate.
Qed.

Lemma BuildImage_sends_a_name_witness :
  exists opts',
    StreamRequest "POST" "/build?t=img&remote=github.com/user/repo&q=1"
                  None Sample.out
    = StreamRequest
        "POST"
        ("/build?"
         ++ queryString (Runtime := Sample.runtime)
              (BuildImageOptions_fields opts'))
        None Sample.out
    /\ BuildImageOptions.Name opts' <> ""
    /\ BuildImageOptions.Name opts' = "img"
    /\ BuildImageOptions.Remote opts' = "github.com/user/repo"
    /\ "github.com/user/repo" <> ""
    /\ BuildImageOptions.SuppressOutput opts' = true
    /\ BuildImageOptions.OutputStream opts' = Sample.out
    /\ Sample.out <> None.
Proof.
  apply (BuildImage_sends_a_name
           Sample.runtime Sample.willing
           (BuildImageOptions.Build "img" "github.com/user/repo" true
                                    Sample.out) []).
  reflexivity.
Defined.
